(** * Senssun BLE body scale: decoder and connection manager (src/sensor.py)

    A shallow embedding of [SenssunScaleSensor]: the payload decoder
    [decode_weight] and the connection lifecycle ([connect],
    [notification_handler], [_disconnect], [async_will_remove_from_hass]).
    Python exceptions are modelled by a result type; the entity's mutable
    attributes, the transport's live connections and the event loop's
    pending timers form an explicit state threaded through a small
    state-and-exception monad. *)

From Stdlib Require Import List ZArith Lia Bool String.
From Stdlib Require Import Strings.Byte.
Import ListNotations.
Open Scope Z_scope.

(** ** Python exceptions and results *)

Inductive exn :=
  | TimeoutError      (* asyncio.TimeoutError raised by asyncio.wait_for *)
  | BleakError        (* bleak.exc.BleakError *)
  | StructError       (* struct.error *)
  | NameError
  | TypeError
  | AttributeError
  | OtherError        (* any other subclass of Exception *)
  | CancelledError.   (* asyncio.CancelledError: a BaseException only *)

(** [except Exception] catches every exception but [CancelledError]. *)
Definition is_Exception (e : exn) : bool :=
  match e with CancelledError => false | _ => true end.

Inductive result (A : Type) :=
  | Ret (a : A)
  | Raise (e : exn).
Arguments Ret {A} a.
Arguments Raise {A} e.

(** ** The payload decoder *)

(** Python slice [data[i:j]] on a list (never raises). *)
Definition slice {A} (i j : nat) (l : list A) : list A :=
  firstn (j - i) (skipn i l).

Definition u8 (b : byte) : Z := Z.of_nat (Byte.to_nat b).

(** struct format [b]: signed byte. *)
Definition s8 (b : byte) : Z :=
  let u := u8 b in if 128 <=? u then u - 256 else u.

(** struct format [>h]: signed big-endian 16-bit integer. *)
Definition s16be (hi lo : byte) : Z :=
  let u := 256 * u8 hi + u8 lo in if 32768 <=? u then u - 65536 else u.

(** [unpack(">bhhb", x)]: needs exactly 6 bytes, else [struct.error]. *)
Definition unpack_bhhb (x : list byte) : result (Z * Z * Z * Z) :=
  match x with
  | [b0; b1; b2; b3; b4; b5] => Ret (s8 b0, s16be b1 b2, s16be b3 b4, s8 b5)
  | _ => Raise StructError
  end.

(** [read_stable] (line 57): [int((ctr1 & 0xA0) == 0xA0)]; Python's [&] on
    negative ints is two's complement, as [Z.land]. *)
Definition read_stable (ctr1 : Z) : Z :=
  if Z.land ctr1 0xA0 =? 0xA0 then 1 else 0.

(** [decode_weight] (lines 61-78), given the object the bare name
    [read_stable] denotes inside the method body ([None]: the lookup fails
    with [NameError]).  The result is [None] or [weight_raw * 100]. *)
Definition decode_weight_with (rs : option (Z -> Z)) (data : list byte)
  : result (option Z) :=
  let xvalue := slice 9 15 data in
  match unpack_bhhb xvalue with
  | Raise e => Raise e
  | Ret (_, weight_raw, _, ctr1) =>
      match rs with
      | None => Raise NameError
      | Some read_stable_fn =>
          if read_stable_fn ctr1 =? 0 (* not read_stable(ctr1) *)
          then Ret None
          else Ret (Some (weight_raw * 100))
      end
  end.

(** Names bound at module level in sensor.py (imports and top-level
    definitions).  [read_stable] is not among them: it is defined in the body
    of class [SenssunScaleSensor], and a class body is not an enclosing
    scope of its methods, nor is it a builtin. *)
Definition module_globals : list string :=
  ["logging"; "asyncio"; "SensorEntity"; "UnitOfMass"; "callback";
   "BleakClient"; "BleakError"; "unpack"; "_LOGGER"; "NOTIFY_CHAR";
   "async_setup_entry"; "SenssunScaleSensor"]%string.

(** The binding of the bare name [read_stable] seen from [decode_weight]:
    locals, then module globals, then builtins; none of them has it. *)
Definition read_stable_in_method_scope : option (Z -> Z) :=
  if existsb (String.eqb "read_stable") module_globals
  then Some read_stable else None.

(** The decoder as the source runs. *)
Definition decode_weight : list byte -> result (option Z) :=
  decode_weight_with read_stable_in_method_scope.

(** The decoder as written if the call resolved to the class's
    [read_stable] (e.g. [SenssunScaleSensor.read_stable(ctr1)]). *)
Definition decode_weight_intended : list byte -> result (option Z) :=
  decode_weight_with (Some read_stable).

(** The scenario payload of the spec and its unstable variant. *)
Definition scenario_payload : list byte :=
  [x00; x00; x00; x00; x00; x00; x00; x00; x00; x01; x00; x05; x00; x00; xa0].
Definition unstable_payload : list byte :=
  [x00; x00; x00; x00; x00; x00; x00; x00; x00; x01; x00; x05; x00; x00; x00].


(** ** The connection manager's state *)

Inductive timer_kind :=
  | IdleDisconnect   (* hass.loop.call_later(60, self.disconnect) *)
  | RetryConnect.    (* hass.async_create_task(self._retry_connect()) *)

(** A callback or task pending on the event loop, due at loop time
    [tm_due] (seconds). *)
Record pending_timer := mk_timer {
  tm_id : nat;
  tm_kind : timer_kind;
  tm_due : nat
}.

(** The entity's attributes, the transport's live connections and the
    event loop's pending callbacks.  A [BleakClient] is named by the id it
    got at construction; [client.is_connected] asks the transport. *)
Record world := mk_world {
  w_state : option Z;               (* self._state *)
  w_available : bool;               (* self._available *)
  w_client : option nat;            (* self._client *)
  w_disconnect_timer : option nat;  (* self._disconnect_timer *)
  w_retry_task : option nat;        (* self._retry_task *)
  w_live : list nat;                (* transport: clients connected *)
  w_pending : list pending_timer;   (* event loop: scheduled work *)
  w_connect_calls : nat;            (* transport connect() calls made *)
  w_next : nat;                     (* source of fresh object ids *)
  w_now : nat                       (* loop time *)
}.

Definition set_state v w := mk_world v (w_available w) (w_client w)
  (w_disconnect_timer w) (w_retry_task w) (w_live w) (w_pending w)
  (w_connect_calls w) (w_next w) (w_now w).
Definition set_available v w := mk_world (w_state w) v (w_client w)
  (w_disconnect_timer w) (w_retry_task w) (w_live w) (w_pending w)
  (w_connect_calls w) (w_next w) (w_now w).
Definition set_client v w := mk_world (w_state w) (w_available w) v
  (w_disconnect_timer w) (w_retry_task w) (w_live w) (w_pending w)
  (w_connect_calls w) (w_next w) (w_now w).
Definition set_disconnect_timer v w := mk_world (w_state w) (w_available w)
  (w_client w) v (w_retry_task w) (w_live w) (w_pending w)
  (w_connect_calls w) (w_next w) (w_now w).
Definition set_retry_task v w := mk_world (w_state w) (w_available w)
  (w_client w) (w_disconnect_timer w) v (w_live w) (w_pending w)
  (w_connect_calls w) (w_next w) (w_now w).
Definition set_live v w := mk_world (w_state w) (w_available w)
  (w_client w) (w_disconnect_timer w) (w_retry_task w) v (w_pending w)
  (w_connect_calls w) (w_next w) (w_now w).
Definition set_pending v w := mk_world (w_state w) (w_available w)
  (w_client w) (w_disconnect_timer w) (w_retry_task w) (w_live w) v
  (w_connect_calls w) (w_next w) (w_now w).
Definition set_connect_calls v w := mk_world (w_state w) (w_available w)
  (w_client w) (w_disconnect_timer w) (w_retry_task w) (w_live w)
  (w_pending w) v (w_next w) (w_now w).
Definition set_next v w := mk_world (w_state w) (w_available w)
  (w_client w) (w_disconnect_timer w) (w_retry_task w) (w_live w)
  (w_pending w) (w_connect_calls w) v (w_now w).

(** [SenssunScaleSensor.__init__]. *)
Definition init_world : world :=
  mk_world None false None None None [] [] 0 0 0.

(** ** A state-and-exception monad *)

Definition M (A : Type) := world -> result A * world.

Definition ret {A} (a : A) : M A := fun w => (Ret a, w).
Definition raise {A} (e : exn) : M A := fun w => (Raise e, w).
Definition bind {A B} (m : M A) (f : A -> M B) : M B :=
  fun w => match m w with
           | (Ret a, w') => f a w'
           | (Raise e, w') => (Raise e, w')
           end.
Definition modify (f : world -> world) : M unit := fun w => (Ret tt, f w).
Definition gets {A} (f : world -> A) : M A := fun w => (Ret (f w), w).
Definition lift {A} (r : result A) : M A := fun w => (r, w).

(** [try: m except ...]: [handler e] is [Some h] when an except clause
    matches [e]. *)
Definition try_except {A} (m : M A) (handler : exn -> option (M A)) : M A :=
  fun w => match m w with
           | (Ret a, w') => (Ret a, w')
           | (Raise e, w') =>
               match handler e with
               | Some h => h w'
               | None => (Raise e, w')
               end
           end.

(** [try: m finally: fin]: [fin] runs in any case; its own exception
    replaces the pending one. *)
Definition try_finally {A} (m : M A) (fin : M unit) : M A :=
  fun w => let (r, w') := m w in
           match fin w' with
           | (Ret _, w'') => (r, w'')
           | (Raise e, w'') => (Raise e, w'')
           end.

Notation "x <- m ;; k" := (bind m (fun x => k))
  (at level 61, m at next level, right associativity).
Notation "m ;; k" := (bind m (fun _ : unit => k))
  (at level 61, right associativity).

(** ** Event loop primitives *)

(** [loop.call_later(delay, cb)] / [async_create_task(...)]: a fresh
    handle, pending until [w_now + delay]. *)
Definition call_later (delay : nat) (k : timer_kind) : M nat :=
  fun w => let id := w_next w in
           (Ret id, set_pending (w_pending w ++ [mk_timer id k (w_now w + delay)])
                                (set_next (S id) w)).

(** [handle.cancel()]: drops the callback if still pending (no-op if it
    already ran or was cancelled). *)
Definition cancel (id : nat) : M unit :=
  modify (fun w => set_pending
            (filter (fun t => negb (Nat.eqb (tm_id t) id)) (w_pending w)) w).

(** The constants of the source. *)
Definition connection_retry_interval : nat := 60.  (* line 33 *)
Definition idle_disconnect_delay : nat := 60.      (* lines 92, 112 *)

(** [round(weight, 1)] (line 84): an int rounds to itself; [round(None, 1)]
    raises [TypeError]. *)
Definition py_round1 (v : option Z) : result Z :=
  match v with None => Raise TypeError | Some z => Ret z end.

(** [self.async_write_ha_state()]: publishes the attributes to the host; no
    attribute changes. *)
Definition async_write_ha_state : M unit := ret tt.

(** ** The manager's methods

    The transport's answers are not known to the code: they are parameters,
    by client id (each [BleakClient] is constructed for one attempt). *)

Section Manager.

(** Outcome of [await asyncio.wait_for(client.connect(), timeout=20.0)]:
    [None] when it connects, [Some e] when it raises [e] (a timeout raises
    [TimeoutError] and leaves the client unconnected). *)
Variable conn_res : nat -> option exn.
(** Outcome of [await client.start_notify(NOTIFY_CHAR, ...)]. *)
Variable notify_res : nat -> option exn.
(** Outcome of [await client.disconnect()]. *)
Variable close_res : nat -> option exn.

Definition is_connected (cid : nat) (w : world) : bool :=
  existsb (Nat.eqb cid) (w_live w).

(** [self._client and self._client.is_connected] *)
Definition client_connected (w : world) : bool :=
  match w_client w with Some c => is_connected c w | None => false end.

(** [BleakClient(self._address, timeout=10.0)]: a fresh client object. *)
Definition new_client : M nat :=
  fun w => (Ret (w_next w), set_next (S (w_next w)) w).

Definition transport_connect (cid : nat) : M unit :=
  fun w => let w1 := set_connect_calls (S (w_connect_calls w)) w in
    match conn_res cid with
    | Some e => (Raise e, w1)
    | None => (Ret tt, set_live (cid :: w_live w1) w1)
    end.

Definition start_notify (cid : nat) : M unit :=
  fun w => match notify_res cid with
           | Some e => (Raise e, w)
           | None => (Ret tt, w)
           end.

Definition transport_disconnect (cid : nat) : M unit :=
  fun w => match close_res cid with
           | Some e => (Raise e, w)
           | None => (Ret tt, set_live (filter (fun c => negb (Nat.eqb c cid))
                                              (w_live w)) w)
           end.

(** [_schedule_retry] (lines 127-131). *)
Definition schedule_retry : M unit :=
  rt <- gets w_retry_task ;;
  (match rt with Some t => cancel t | None => ret tt end) ;;
  id <- call_later connection_retry_interval RetryConnect ;;
  modify (set_retry_task (Some id)).

(** The three except clauses of [connect] (lines 114-125). *)
Definition connect_handler (e : exn) : option (M unit) :=
  match e with
  | TimeoutError => Some (modify (set_available false) ;; schedule_retry)
  | BleakError => Some (modify (set_available false) ;; schedule_retry)
  | _ => if is_Exception e
         then Some (modify (set_available false) ;; schedule_retry)
         else None
  end.

(** [connect] (lines 94-125).  The body runs under [self._connect_lock]:
    callers are serialised, so each call is one uninterrupted step here. *)
Definition connect : M unit :=
  c <- gets client_connected ;;
  if c then ret tt else
  try_except
    (cid <- new_client ;;
     modify (set_client (Some cid)) ;;
     transport_connect cid ;;
     modify (set_available true) ;;
     start_notify cid ;;
     id <- call_later idle_disconnect_delay IdleDisconnect ;;
     modify (set_disconnect_timer (Some id)))
    connect_handler.

(** [_disconnect] (lines 141-150); [self._client.disconnect()] on
    [self._client = None] raises [AttributeError]. *)
Definition disconnect_body : M unit :=
  c <- gets w_client ;;
  match c with
  | None => raise AttributeError
  | Some cid => transport_disconnect cid
  end.

Definition _disconnect : M unit :=
  try_finally
    (try_except disconnect_body
       (fun e => if is_Exception e then Some (ret tt) else None))
    (modify (set_client None) ;;
     modify (set_available false) ;;
     async_write_ha_state).

(** [disconnect] (lines 137-139); the task it creates is run at once. *)
Definition disconnect : M unit :=
  c <- gets client_connected ;;
  if c then _disconnect else ret tt.

(** [async_will_remove_from_hass] (lines 156-160): the teardown. *)
Definition async_will_remove_from_hass : M unit :=
  rt <- gets w_retry_task ;;
  (match rt with Some t => cancel t | None => ret tt end) ;;
  _disconnect.

(** [async_update] (lines 162-165). *)
Definition async_update : M unit :=
  c <- gets client_connected ;;
  if c then ret tt else connect.

End Manager.

(** [notification_handler] (lines 81-92), given the binding of
    [read_stable] its [decode_weight] call sees. *)
Definition notification_handler_with (rs : option (Z -> Z)) (data : list byte)
  : M unit :=
  weight <- lift (decode_weight_with rs data) ;;
  st <- lift (py_round1 weight) ;;
  modify (set_state (Some st)) ;;
  modify (set_available true) ;;
  async_write_ha_state ;;
  dt <- gets w_disconnect_timer ;;
  (match dt with Some t => cancel t | None => ret tt end) ;;
  id <- call_later idle_disconnect_delay IdleDisconnect ;;
  modify (set_disconnect_timer (Some id)).

Definition notification_handler : list byte -> M unit :=
  notification_handler_with read_stable_in_method_scope.

(** ** Properties and concrete inputs used below *)

Definition byte_at (data : list byte) (i : nat) : byte := nth i data x00.

(** The scenario payload with other bytes 0-8 and two trailing bytes. *)
Definition scenario_payload_variant : list byte :=
  [xff; x12; x00; x00; x00; x00; x00; x00; x7f; x01; x00; x05; x00; x00; xa0;
   x42; x43].

(** Every live transport connection is the manager's current client. *)
Definition conn_inv (w : world) : Prop :=
  forall c, In c (w_live w) -> w_client w = Some c.

(** [n] calls of [connect], one after the other (as the lock orders them). *)
Fixpoint connect_n (conn_res notify_res : nat -> option exn) (n : nat)
  : M unit :=
  match n with
  | O => ret tt
  | S k => connect conn_res notify_res ;; connect_n conn_res notify_res k
  end.

Definition is_retry (t : pending_timer) : bool :=
  match tm_kind t with RetryConnect => true | IdleDisconnect => false end.

(** [self._retry_task] is the handle of exactly the pending retry tasks. *)
Definition retry_inv (w : world) : Prop :=
  forall t, In t (w_pending w) ->
    (tm_kind t = RetryConnect <-> w_retry_task w = Some (tm_id t)).

Definition transport_ok : nat -> option exn := fun _ => None.

(** The manager right after a successful [connect] from [__init__]. *)
Definition connected_world : world :=
  snd (connect transport_ok transport_ok init_world).

(** ** The event loop running a due callback *)

Definition set_now v w := mk_world (w_state w) (w_available w)
  (w_client w) (w_disconnect_timer w) (w_retry_task w) (w_live w)
  (w_pending w) (w_connect_calls w) (w_next w) v.

(** The loop runs pending entry [t] at its due time: the entry leaves the
    queue and its callback runs.  An idle entry is [self.disconnect]; a
    retry entry is [_retry_connect] (lines 133-135) past its
    [asyncio.sleep], i.e. [self.async_update()]. *)
Definition fire (conn_res notify_res close_res : nat -> option exn)
    (t : pending_timer) : M unit :=
  modify (fun w => set_pending
            (filter (fun t' => negb (Nat.eqb (tm_id t') (tm_id t))) (w_pending w))
            (set_now (Nat.max (w_now w) (tm_due t)) w)) ;;
  match tm_kind t with
  | IdleDisconnect => disconnect close_res
  | RetryConnect => async_update conn_res notify_res
  end.

(** [self._attr_unique_id = f"ble_scale_{self._address}"] (line 29). *)
Definition unique_id (address : string) : string :=
  ("ble_scale_" ++ address)%string.

(** Every pending entry and the retry handle use ids already handed out. *)
Definition ids_fresh (w : world) : Prop :=
  (forall t, In t (w_pending w) -> (tm_id t < w_next w)%nat) /\
  (forall r, w_retry_task w = Some r -> (r < w_next w)%nat).

(** The bookkeeping [_schedule_retry] and the timers keep: the retry handle
    names exactly the pending retry tasks, ids are fresh, and no two
    pending entries share an id. *)
Definition mgr_inv (w : world) : Prop :=
  retry_inv w /\ ids_fresh w /\ NoDup (map tm_id (w_pending w)).

(** The states the entity can reach from [__init__]: [connect] (also run
    by [async_added_to_hass] and [async_update]), a notification (with any
    binding of [read_stable]), the teardown, and the loop running a pending
    entry; the transport may answer differently at every step. *)
Inductive reachable : world -> Prop :=
  | reach_init : reachable init_world
  | reach_connect cr nr w :
      reachable w -> reachable (snd (connect cr nr w))
  | reach_notify rs data w :
      reachable w -> reachable (snd (notification_handler_with rs data w))
  | reach_teardown clr w :
      reachable w -> reachable (snd (async_will_remove_from_hass clr w))
  | reach_fire cr nr clr t w :
      reachable w -> In t (w_pending w) -> reachable (snd (fire cr nr clr t w)).

(** ** Decoder lemmas *)

Example decode_scenario_intended :
  decode_weight_intended scenario_payload = Ret (Some 500).
Proof. reflexivity. Qed.

Example decode_scenario_actual :
  decode_weight scenario_payload = Raise NameError.
Proof. reflexivity. Qed.

Tactic Notation "split_bytes" ident(l) int_or_var(n) :=
  do n (destruct l as [|? l]; [simpl in *; lia|]).

(** A payload of 15 bytes or more is cut to its bytes 9 to 14. *)
Lemma slice_9_15 (data : list byte) :
  (15 <= List.length data)%nat ->
  slice 9 15 data = [byte_at data 9; byte_at data 10; byte_at data 11;
                     byte_at data 12; byte_at data 13; byte_at data 14].
Proof. intros H. split_bytes data 15. reflexivity. Qed.

Lemma unpack_short (x : list byte) :
  (List.length x < 6)%nat -> unpack_bhhb x = Raise StructError.
Proof.
  intros H.
  destruct x as [|b0 [|b1 [|b2 [|b3 [|b4 [|b5 x]]]]]]; simpl in *;
    reflexivity || lia.
Qed.

Lemma slice_short (data : list byte) :
  (List.length data < 15)%nat -> (List.length (slice 9 15 data) < 6)%nat.
Proof.
  intros H. unfold slice. rewrite length_firstn, length_skipn.
  apply (Nat.le_lt_trans _ (List.length data - 9)); [apply Nat.le_min_r | lia].
Qed.

(** With [read_stable] resolved, a stable payload gives [weight_raw * 100]. *)
Lemma decode_weight_intended_stable (data : list byte) :
  (15 <= List.length data)%nat ->
  Z.land (s8 (byte_at data 14)) 0xA0 = 0xA0 ->
  decode_weight_intended data
  = Ret (Some (s16be (byte_at data 10) (byte_at data 11) * 100)).
Proof.
  intros Hlen Hst. unfold decode_weight_intended, decode_weight_with.
  rewrite slice_9_15 by exact Hlen. simpl. unfold read_stable.
  rewrite Hst. reflexivity.
Qed.

(** With [read_stable] resolved, an unstable payload gives [None]. *)
Lemma decode_weight_intended_unstable (data : list byte) :
  (15 <= List.length data)%nat ->
  Z.land (s8 (byte_at data 14)) 0xA0 <> 0xA0 ->
  decode_weight_intended data = Ret None.
Proof.
  intros Hlen Hst. unfold decode_weight_intended, decode_weight_with.
  rewrite slice_9_15 by exact Hlen. simpl. unfold read_stable.
  apply Z.eqb_neq in Hst. rewrite Hst. reflexivity.
Qed.

(** As the source runs, every payload of 15 bytes or more makes
    [decode_weight] raise [NameError] at the call of [read_stable]. *)
Lemma decode_weight_well_formed_raises (data : list byte) :
  (15 <= List.length data)%nat -> decode_weight data = Raise NameError.
Proof.
  intros Hlen. unfold decode_weight, decode_weight_with.
  rewrite slice_9_15 by exact Hlen. reflexivity.
Qed.

Lemma byte_at_agree (d1 d2 : list byte) (i : nat) :
  nth_error d1 i = nth_error d2 i -> byte_at d1 i = byte_at d2 i.
Proof.
  intros H. unfold byte_at. rewrite <- !nth_default_eq. unfold nth_default.
  rewrite H. reflexivity.
Qed.

(** ** Decoder claims *)

(** C1 (code_bug): for a payload of 15 bytes or more whose control byte
    [ctr1] (byte 14) has both bits of [0xA0] set, the source's
    [decode_weight] raises [NameError] (the bare name [read_stable] is
    unbound in the method), whereas the decoder with [read_stable] resolved
    returns [weight_raw * 100] grams, [weight_raw] being the signed
    big-endian 16-bit field at bytes 10-11. *)
Theorem decode_weight_stable_raises_name_error (data : list byte) :
  (15 <= List.length data)%nat ->
  Z.land (s8 (byte_at data 14)) 0xA0 = 0xA0 ->
  decode_weight data = Raise NameError /\
  decode_weight_intended data
  = Ret (Some (s16be (byte_at data 10) (byte_at data 11) * 100)).
Proof.
  intros Hlen Hst. split.
  - apply decode_weight_well_formed_raises, Hlen.
  - apply decode_weight_intended_stable; assumption.
Qed.

(** The C1 theorem on the spec's scenario payload
    [00 .. 00 01 00 05 00 00 A0]: [NameError], where 500 grams was meant. *)
Lemma decode_weight_stable_raises_name_error_witness :
  decode_weight scenario_payload = Raise NameError /\
  decode_weight_intended scenario_payload = Ret (Some 500).
Proof.
  exact (decode_weight_stable_raises_name_error scenario_payload
           ltac:(simpl; lia) ltac:(vm_compute; reflexivity)).
Defined.

(** C2 (counterexample): the empty payload, shorter than 15 bytes, does not
    decode to [None]. *)
Lemma decode_weight_short_not_none :
  ~ (forall data : list byte,
        (List.length data < 15)%nat -> decode_weight data = Ret None).
Proof.
  intros H. specialize (H [] ltac:(simpl; lia)).
  vm_compute in H. discriminate H.
Qed.

(** A payload shorter than 15 bytes makes [unpack] raise, whatever
    [read_stable] resolves to. *)
Lemma decode_weight_short_raises (rs : option (Z -> Z)) (data : list byte) :
  (List.length data < 15)%nat -> decode_weight_with rs data = Raise StructError.
Proof.
  intros H. unfold decode_weight_with.
  rewrite (unpack_short _ (slice_short data H)). reflexivity.
Qed.

(** C2 (amended): for every payload shorter than 15 bytes, [decode_weight]
    raises [struct.error]: the slice [data[9:15]] has fewer than 6 bytes
    and [unpack(">bhhb", ...)] rejects it; this holds whatever [read_stable]
    resolves to, so it is raised before the stability test. *)
Theorem decode_weight_short_raises_struct_error
    (rs : option (Z -> Z)) (data : list byte) :
  (List.length data < 15)%nat -> decode_weight_with rs data = Raise StructError.
Proof. exact (decode_weight_short_raises rs data). Qed.

Lemma decode_weight_short_raises_struct_error_witness :
  decode_weight [x00; x01; x02] = Raise StructError.
Proof.
  exact (decode_weight_short_raises_struct_error read_stable_in_method_scope
           [x00; x01; x02] ltac:(simpl; lia)).
Defined.

(** C5 (code_bug): for a payload of 15 bytes or more whose control byte does
    not have both bits of [0xA0] set, the source's [decode_weight] raises
    [NameError] (same defect as C1), whereas the decoder with [read_stable]
    resolved returns [None]. *)
Theorem decode_weight_unstable_raises_name_error (data : list byte) :
  (15 <= List.length data)%nat ->
  Z.land (s8 (byte_at data 14)) 0xA0 <> 0xA0 ->
  decode_weight data = Raise NameError /\
  decode_weight_intended data = Ret None.
Proof.
  intros Hlen Hst. split.
  - apply decode_weight_well_formed_raises, Hlen.
  - apply decode_weight_intended_unstable; assumption.
Qed.

Lemma decode_weight_unstable_raises_name_error_witness :
  decode_weight unstable_payload = Raise NameError /\
  decode_weight_intended unstable_payload = Ret None.
Proof.
  exact (decode_weight_unstable_raises_name_error unstable_payload
           ltac:(simpl; lia) ltac:(vm_compute; discriminate)).
Defined.

(** C10: for every two payloads of 15 bytes or more that agree on bytes 9
    to 14, [decode_weight] gives the same result (the same value or the
    same exception), whatever [read_stable] resolves to: bytes 0-8 and
    bytes from 15 on never influence it. *)
Theorem decode_weight_depends_only_on_bytes_9_to_14
    (rs : option (Z -> Z)) (d1 d2 : list byte) :
  (15 <= List.length d1)%nat -> (15 <= List.length d2)%nat ->
  (forall i, (9 <= i <= 14)%nat -> nth_error d1 i = nth_error d2 i) ->
  decode_weight_with rs d1 = decode_weight_with rs d2.
Proof.
  intros H1 H2 Hagree. unfold decode_weight_with.
  rewrite (slice_9_15 d1 H1), (slice_9_15 d2 H2).
  rewrite !(byte_at_agree d1 d2) by (apply Hagree; lia).
  reflexivity.
Qed.

Lemma decode_weight_depends_only_on_bytes_9_to_14_witness :
  decode_weight_intended scenario_payload
  = decode_weight_intended scenario_payload_variant.
Proof.
  exact (decode_weight_depends_only_on_bytes_9_to_14 (Some read_stable)
           scenario_payload scenario_payload_variant
           ltac:(simpl; lia) ltac:(simpl; lia)
           ltac:(intros i Hi;
                 assert (i = 9 \/ i = 10 \/ i = 11 \/ i = 12 \/ i = 13 \/ i = 14)%nat
                   as Hc by lia;
                 repeat destruct Hc as [Hc | Hc]; subst i; reflexivity)).
Defined.

(** As the source runs, [decode_weight] raises on every payload. *)
Lemma decode_weight_raises (data : list byte) :
  decode_weight data
  = Raise (if (List.length data <? 15)%nat then StructError else NameError).
Proof.
  destruct (Nat.ltb_spec (List.length data) 15) as [H|H].
  - apply decode_weight_short_raises, H.
  - apply decode_weight_well_formed_raises; lia.
Qed.

(** ** Notification handler claims *)

(** The handler, up to the decode, as it stands when [decode_weight]
    yields [None]: [round(None, 1)] raises before any attribute is set. *)
Lemma notification_handler_none (rs : option (Z -> Z)) (data : list byte)
    (w : world) :
  decode_weight_with rs data = Ret None ->
  notification_handler_with rs data w = (Raise TypeError, w).
Proof.
  intros H. unfold notification_handler_with, bind, lift. rewrite H.
  reflexivity.
Qed.

Lemma notification_handler_raises (rs : option (Z -> Z)) (data : list byte)
    (w : world) (e : exn) :
  decode_weight_with rs data = Raise e ->
  notification_handler_with rs data w = (Raise e, w).
Proof.
  intros H. unfold notification_handler_with, bind, lift. rewrite H.
  reflexivity.
Qed.

(** C3: a notification whose payload decodes to [None] -- a malformed one
    (shorter than 15 bytes), or an unstable one (one the decoder, with
    [read_stable] resolved, maps to [None]) -- leaves the whole state
    unchanged: last known weight, availability, client and transport
    connections, timers.  As the source runs, [notification_handler] gets
    there by raising inside [decode_weight] ([struct.error] for a short
    payload, [NameError] otherwise) before any attribute is set; with
    [read_stable] resolved it raises too ([struct.error], or [TypeError] at
    [round(None, 1)]) and the state is again unchanged. *)
Theorem notification_none_leaves_state (data : list byte) (w : world) :
  ((List.length data < 15)%nat \/ decode_weight_intended data = Ret None) ->
  (let (r, w') := notification_handler data w in
   w_state w' = w_state w /\ w_available w' = w_available w /\
   w_client w' = w_client w /\ w_live w' = w_live w /\ w' = w /\
   r = Raise (if (List.length data <? 15)%nat then StructError else NameError))
  /\
  (let (r, w') := notification_handler_with (Some read_stable) data w in
   w' = w /\ exists e, r = Raise e).
Proof.
  intros H. split.
  - unfold notification_handler.
    rewrite (notification_handler_raises read_stable_in_method_scope data w _
               (decode_weight_raises data)).
    repeat split.
  - destruct H as [H | H].
    + rewrite (notification_handler_raises (Some read_stable) data w _
                 (decode_weight_short_raises (Some read_stable) data H)).
      split; [reflexivity | eexists; reflexivity].
    + rewrite (notification_handler_none (Some read_stable) data w H).
      split; [reflexivity | eexists; reflexivity].
Qed.

Lemma notification_none_leaves_state_witness :
  (let (r, w') := notification_handler unstable_payload connected_world in
   w_state w' = w_state connected_world /\
   w_available w' = w_available connected_world /\
   w_client w' = w_client connected_world /\
   w_live w' = w_live connected_world /\ w' = connected_world /\
   r = Raise (if (List.length unstable_payload <? 15)%nat
              then StructError else NameError))
  /\
  (let (r, w') := notification_handler_with (Some read_stable) unstable_payload
                    connected_world in
   w' = connected_world /\ exists e, r = Raise e).
Proof.
  apply (notification_none_leaves_state unstable_payload connected_world).
  right. vm_compute. reflexivity.
Defined.

(** C4 (code_bug): the idle-disconnect timer is not reset on every
    notification.  Connected, with the idle timer (handle 1, due at 60)
    armed: the scenario payload makes the source's handler raise
    [NameError] inside [decode_weight]; with [read_stable] resolved, the
    unstable payload makes it raise [TypeError] at [round(None, 1)].  In
    both cases the lines that cancel and re-arm the timer never run. *)
Theorem notification_does_not_reset_idle_timer :
  w_pending connected_world = [mk_timer 1 IdleDisconnect 60] /\
  w_disconnect_timer connected_world = Some 1%nat /\
  notification_handler scenario_payload connected_world
  = (Raise NameError, connected_world) /\
  notification_handler_with (Some read_stable) unstable_payload connected_world
  = (Raise TypeError, connected_world).
Proof. vm_compute. repeat split. Qed.

(** ** Disconnect path *)

Ltac mstep :=
  repeat (unfold bind, gets, modify, ret, raise, lift, try_except,
            try_finally, async_write_ha_state in *; simpl in *).

(** [_disconnect] clears the client and the availability flag whatever the
    close does, and only a non-[Exception] error leaves it. *)
Lemma disconnect_clears (close_res : nat -> option exn) (w : world) :
  let (r, w') := _disconnect close_res w in
  w_client w' = None /\ w_available w' = false /\
  (forall e, r = Raise e -> is_Exception e = false).
Proof.
  unfold _disconnect, disconnect_body, transport_disconnect. mstep.
  destruct (w_client w) as [cid|].
  - destruct (close_res cid) as [e|]; simpl.
    + destruct (is_Exception e) eqn:He; simpl;
        repeat split; intros e' Hr; inversion Hr; subst; assumption.
    + repeat split; intros e' Hr; discriminate Hr.
  - simpl. repeat split; intros e' Hr; discriminate Hr.
Qed.

(** C9: whatever [client.disconnect()] does (succeeds, raises, or the
    client is [None]), after [_disconnect] the client is cleared and the
    entity is unavailable; no exception of class [Exception] comes out of
    it (only a [CancelledError] would pass the [except Exception]). *)
Theorem disconnect_always_clears
    (close_res : nat -> option exn) (w : world) :
  let (r, w') := _disconnect close_res w in
  w_client w' = None /\ w_available w' = false /\
  (forall e, r = Raise e -> is_Exception e = false).
Proof. exact (disconnect_clears close_res w). Qed.

(** ** Connect path *)

Section ConnectProofs.

Variables conn_res notify_res : nat -> option exn.

Lemma connect_when_connected (w : world) :
  client_connected w = true -> connect conn_res notify_res w = (Ret tt, w).
Proof. intros H. unfold connect. mstep. rewrite H. reflexivity. Qed.

Lemma connect_handler_some (e : exn) (h : M unit) :
  connect_handler e = Some h ->
  h = (modify (set_available false) ;; schedule_retry).
Proof.
  destruct e; simpl; intros H; inversion H; reflexivity.
Qed.

Lemma connect_handler_exception (e : exn) :
  is_Exception e = true ->
  connect_handler e = Some (modify (set_available false) ;; schedule_retry).
Proof. destruct e; simpl; intros H; try discriminate H; reflexivity. Qed.

Lemma schedule_retry_frame (w : world) :
  let w' := snd (schedule_retry w) in
  fst (schedule_retry w) = Ret tt /\
  w_client w' = w_client w /\ w_live w' = w_live w /\
  w_available w' = w_available w.
Proof.
  unfold schedule_retry, cancel, call_later. mstep.
  destruct (w_retry_task w); simpl; repeat split.
Qed.

(** What a call that opens no transport connection or one new one
    leaves: the new client is current, and it is the only new live one. *)
Lemma connect_not_connected_shape (w : world) :
  client_connected w = false ->
  let w' := snd (connect conn_res notify_res w) in
  w_client w' = Some (w_next w) /\
  (forall c, In c (w_live w') -> c = w_next w \/ In c (w_live w)).
Proof.
  intros Hc. unfold connect. mstep. rewrite Hc.
  unfold new_client, transport_connect, start_notify, call_later. mstep.
  destruct (conn_res (w_next w)) as [e|]; simpl.
  - destruct (connect_handler e) as [h|] eqn:Eh; simpl.
    + rewrite (connect_handler_some e h Eh). mstep.
      destruct (schedule_retry_frame
                  (set_available false
                     (set_connect_calls (S (w_connect_calls w))
                        (set_client (Some (w_next w))
                           (set_next (S (w_next w)) w)))))
        as [_ [Hcl [Hl _]]].
      destruct (schedule_retry _) as [r w'] eqn:Es. simpl in *.
      rewrite Hcl, Hl. simpl. split; [reflexivity | intros c0 H0; simpl in *; intuition (subst; auto)].
    + split; [reflexivity | intros c0 H0; simpl in *; intuition (subst; auto)].
  - destruct (notify_res (w_next w)) as [e|]; simpl.
    + destruct (connect_handler e) as [h|] eqn:Eh; simpl.
      * rewrite (connect_handler_some e h Eh). mstep.
        match goal with
        | |- context [schedule_retry ?x] =>
            destruct (schedule_retry_frame x) as [_ [Hcl [Hl _]]];
            destruct (schedule_retry x) as [r w'] eqn:Es
        end.
        simpl in *. rewrite Hcl, Hl. simpl. split; [reflexivity | intros c0 H0; simpl in *; intuition (subst; auto)].
      * split; [reflexivity | intros c0 H0; simpl in *; intuition (subst; auto)].
    + split; [reflexivity | intros c0 H0; simpl in *; intuition (subst; auto)].
Qed.

Lemma conn_inv_not_connected (w : world) :
  conn_inv w -> client_connected w = false -> w_live w = [].
Proof.
  intros Hi Hc. destruct (w_live w) as [|c l] eqn:E; [reflexivity|].
  exfalso. assert (Hcl : w_client w = Some c) by (apply Hi; rewrite E; left; reflexivity).
  unfold client_connected, is_connected in Hc. rewrite Hcl, E in Hc.
  simpl in Hc. rewrite Nat.eqb_refl in Hc. discriminate Hc.
Qed.

Lemma connect_conn_inv (w : world) :
  conn_inv w -> conn_inv (snd (connect conn_res notify_res w)).
Proof.
  intros Hi. destruct (client_connected w) eqn:Hc.
  - rewrite (connect_when_connected w Hc). exact Hi.
  - destruct (connect_not_connected_shape w Hc) as [Hcl Hl].
    rewrite (conn_inv_not_connected w Hi Hc) in Hl.
    intros c Hin. rewrite Hcl. destruct (Hl c Hin) as [-> | []]. reflexivity.
Qed.

Lemma connect_n_conn_inv (n : nat) (w : world) :
  conn_inv w -> conn_inv (snd (connect_n conn_res notify_res n w)).
Proof.
  revert w. induction n as [|n IH]; intros w Hi; simpl; [exact Hi|].
  unfold bind at 1.
  pose proof (connect_conn_inv w Hi) as Hi'.
  destruct (connect conn_res notify_res w) as [r w'] eqn:E.
  destruct r as [[]|e]; simpl in *.
  - apply IH, Hi'.
  - exact Hi'.
Qed.

Lemma filter_cancel_retries (r : nat) (l : list pending_timer) :
  (forall t, In t l -> (tm_kind t = RetryConnect <-> Some r = Some (tm_id t))) ->
  filter is_retry (filter (fun t => negb (Nat.eqb (tm_id t) r)) l) = [] /\
  filter (fun t => negb (is_retry t)) (filter (fun t => negb (Nat.eqb (tm_id t) r)) l)
  = filter (fun t => negb (is_retry t)) l.
Proof.
  induction l as [|t l IH]; intros H; [split; reflexivity|].
  destruct IH as [IH1 IH2]; [intros t' Ht'; apply H; right; exact Ht'|].
  specialize (H t (or_introl eq_refl)).
  unfold is_retry in *. simpl.
  destruct (tm_kind t) eqn:Ek.
  - assert (Hne : (tm_id t =? r)%nat = false).
    { apply Nat.eqb_neq. intros Heq. subst r.
      destruct H as [_ H]. specialize (H eq_refl). discriminate H. }
    rewrite Hne. simpl. rewrite Ek. simpl. rewrite IH1, IH2. split; reflexivity.
  - assert (Heq : (tm_id t =? r)%nat = true).
    { apply Nat.eqb_eq. destruct H as [H _]. specialize (H eq_refl).
      inversion H. reflexivity. }
    rewrite Heq. simpl. rewrite IH1, IH2. split; reflexivity.
Qed.

Lemma filter_no_retries (l : list pending_timer) :
  (forall t, In t l -> (tm_kind t = RetryConnect <-> @None nat = Some (tm_id t))) ->
  filter is_retry l = [].
Proof.
  induction l as [|t l IH]; intros H; [reflexivity|].
  pose proof (H t (or_introl eq_refl)) as Ht. unfold is_retry at 1. simpl.
  destruct (tm_kind t).
  - apply IH. intros t' Ht'. apply H. right. exact Ht'.
  - destruct Ht as [Ht _]. specialize (Ht eq_refl). discriminate Ht.
Qed.

(** [_schedule_retry] leaves exactly one pending retry, due after the retry
    interval, and touches no other timer. *)
Lemma schedule_retry_spec (w : world) :
  retry_inv w ->
  let w' := snd (schedule_retry w) in
  w_retry_task w' = Some (w_next w) /\
  filter is_retry (w_pending w')
  = [mk_timer (w_next w) RetryConnect (w_now w + connection_retry_interval)] /\
  filter (fun t => negb (is_retry t)) (w_pending w')
  = filter (fun t => negb (is_retry t)) (w_pending w).
Proof.
  intros Hi. unfold retry_inv in Hi.
  unfold schedule_retry, cancel, call_later. mstep.
  destruct (w_retry_task w) as [r|] eqn:Er; simpl.
  - destruct (filter_cancel_retries r (w_pending w) Hi) as [H1 H2].
    rewrite !filter_app, H1, H2. simpl. rewrite app_nil_r. repeat split.
  - rewrite !filter_app, (filter_no_retries _ Hi). simpl.
    rewrite app_nil_r.
    assert (Hn : filter (fun t => negb (is_retry t)) (w_pending w) = w_pending w).
    { apply forallb_filter_id. apply forallb_forall. intros t Ht.
      destruct (Hi t Ht) as [Hk _]. unfold is_retry.
      destruct (tm_kind t); [reflexivity|]. specialize (Hk eq_refl).
      discriminate Hk. }
    rewrite Hn. repeat split.
Qed.

(** A failed attempt ends in the except clauses: [connect] is
    [_schedule_retry] after [self._available = False]. *)
Lemma connect_failure_eq (w : world) (e : exn) :
  client_connected w = false -> is_Exception e = true ->
  (conn_res (w_next w) = Some e \/
   (conn_res (w_next w) = None /\ notify_res (w_next w) = Some e)) ->
  exists wf, connect conn_res notify_res w = schedule_retry (set_available false wf) /\
    w_pending wf = w_pending w /\ w_retry_task wf = w_retry_task w /\
    w_now wf = w_now w.
Proof.
  intros Hc He Hf. unfold connect. mstep. rewrite Hc.
  unfold new_client, transport_connect, start_notify, call_later. mstep.
  destruct Hf as [Hf | [Hf Hn]]; rewrite Hf; simpl.
  - rewrite (connect_handler_exception e He). mstep.
    eexists; split; [reflexivity | repeat split].
  - rewrite Hn. simpl. rewrite (connect_handler_exception e He). mstep.
    eexists; split; [reflexivity | repeat split].
Qed.

End ConnectProofs.

(** Right after [__init__] no transport connection is live. *)
Lemma conn_inv_init : conn_inv init_world.
Proof. intros c []. Qed.

(** C6: [connect] is idempotent and serialised calls never hold two
    connections.  While the client is connected, a call returns at once and
    changes nothing (no transport connect call), so two calls in a row make
    none; and any number of calls run one after another (as the connect
    lock serialises them), from a state whose live connections are all the
    current client, leave at most one live transport connection, whatever
    the transport answers. *)
Theorem connect_idempotent_single_connection
    (conn_res notify_res : nat -> option exn) :
  (forall w, client_connected w = true ->
     connect conn_res notify_res w = (Ret tt, w)) /\
  (forall w, client_connected w = true ->
     (connect conn_res notify_res ;; connect conn_res notify_res) w
     = (Ret tt, w)) /\
  (forall n w, conn_inv w ->
     let w' := snd (connect_n conn_res notify_res n w) in
     forall c1 c2, In c1 (w_live w') -> In c2 (w_live w') -> c1 = c2).
Proof.
  split; [|split].
  - apply connect_when_connected.
  - intros w Hc. unfold bind at 1. rewrite (connect_when_connected _ _ w Hc).
    apply connect_when_connected, Hc.
  - intros n w Hi. cbv zeta. intros c1 c2 H1 H2.
    pose proof (connect_n_conn_inv conn_res notify_res n w Hi) as Hi'.
    pose proof (Hi' c1 H1) as E1. pose proof (Hi' c2 H2) as E2.
    rewrite E1 in E2. injection E2 as E2. exact E2.
Qed.

(** C7: when the attempt fails, by a timeout or any other exception of
    class [Exception] raised by [client.connect()] or by [start_notify], the
    error is caught ([connect] returns normally), the entity is marked
    unavailable, exactly one retry task is pending (the previous one is
    cancelled), due after [connection_retry_interval] seconds, and no other
    timer is added or removed. *)
Theorem connect_failure_schedules_one_retry
    (conn_res notify_res : nat -> option exn) (w : world) (e : exn) :
  client_connected w = false -> is_Exception e = true ->
  (conn_res (w_next w) = Some e \/
   (conn_res (w_next w) = None /\ notify_res (w_next w) = Some e)) ->
  retry_inv w ->
  let (r, w') := connect conn_res notify_res w in
  r = Ret tt /\ w_available w' = false /\
  exists id, w_retry_task w' = Some id /\
    filter is_retry (w_pending w')
    = [mk_timer id RetryConnect (w_now w + connection_retry_interval)] /\
    filter (fun t => negb (is_retry t)) (w_pending w')
    = filter (fun t => negb (is_retry t)) (w_pending w).
Proof.
  intros Hc He Hf Hi.
  destruct (connect_failure_eq conn_res notify_res w e Hc He Hf)
    as [wf [Eq [Hp [Hr Hn]]]].
  rewrite Eq.
  assert (Hi' : retry_inv (set_available false wf)).
  { unfold retry_inv in *. simpl. rewrite Hp, Hr. exact Hi. }
  destruct (schedule_retry_frame (set_available false wf)) as [Hret [_ [_ Hav]]].
  destruct (schedule_retry_spec (set_available false wf) Hi') as [H1 [H2 H3]].
  destruct (schedule_retry (set_available false wf)) as [r w'].
  simpl in *. rewrite Hn in H2. rewrite Hp in H3.
  split; [exact Hret|]. split; [exact Hav|].
  exists (w_next wf). split; [exact H1|]. split; [exact H2 | exact H3].
Qed.

Lemma connect_failure_schedules_one_retry_witness :
  let (r, w') := connect (fun _ => Some TimeoutError) transport_ok init_world in
  r = Ret tt /\ w_available w' = false /\
  exists id, w_retry_task w' = Some id /\
    filter is_retry (w_pending w')
    = [mk_timer id RetryConnect (w_now init_world + connection_retry_interval)] /\
    filter (fun t => negb (is_retry t)) (w_pending w')
    = filter (fun t => negb (is_retry t)) (w_pending init_world).
Proof.
  exact (connect_failure_schedules_one_retry (fun _ => Some TimeoutError)
           transport_ok init_world TimeoutError eq_refl eq_refl
           (or_introl eq_refl) ltac:(intros t Ht; simpl in Ht; destruct Ht)).
Defined.

(** ** Teardown *)

Lemma disconnect_keeps_pending (close_res : nat -> option exn) (w : world) :
  w_pending (snd (_disconnect close_res w)) = w_pending w /\
  w_retry_task (snd (_disconnect close_res w)) = w_retry_task w.
Proof.
  unfold _disconnect, disconnect_body, transport_disconnect. mstep.
  destruct (w_client w) as [cid|]; simpl; [|split; reflexivity].
  destruct (close_res cid) as [e|]; simpl; [|split; reflexivity].
  destruct (is_Exception e); simpl; split; reflexivity.
Qed.

Lemma disconnect_no_client (close_res : nat -> option exn) (w : world) :
  w_client w = None -> fst (_disconnect close_res w) = Ret tt.
Proof.
  intros H. unfold _disconnect, disconnect_body. mstep. rewrite H.
  reflexivity.
Qed.

(** What the teardown does do: with the retry handle tracking the pending
    retry tasks, it leaves none pending, clears the client, marks the entity
    unavailable, lets no [Exception] out, and a second call returns
    normally. *)
Lemma teardown_cancels_retry_and_disconnects
    (close_res : nat -> option exn) (w : world) :
  retry_inv w ->
  let (r, w') := async_will_remove_from_hass close_res w in
  filter is_retry (w_pending w') = [] /\ w_client w' = None /\
  w_available w' = false /\
  (forall e, r = Raise e -> is_Exception e = false) /\
  fst (async_will_remove_from_hass close_res w') = Ret tt.
Proof.
  intros Hi. unfold async_will_remove_from_hass at 1. mstep.
  set (w1 := match w_retry_task w with
             | Some t => snd (cancel t w)
             | None => w
             end).
  assert (E : (match w_retry_task w with
               | Some t => cancel t
               | None => fun w0 : world => (Ret tt, w0)
               end) w = (Ret tt, w1)).
  { unfold w1. destruct (w_retry_task w); reflexivity. }
  rewrite E.
  assert (Hr : filter is_retry (w_pending w1) = []).
  { unfold w1, cancel. mstep. unfold retry_inv in Hi.
    destruct (w_retry_task w) as [r|]; simpl.
    - apply (filter_cancel_retries r _ Hi).
    - apply filter_no_retries, Hi. }
  pose proof (disconnect_clears close_res w1) as Hd.
  destruct (disconnect_keeps_pending close_res w1) as [Hp _].
  destruct (_disconnect close_res w1) as [r w'] eqn:Ed. simpl in Hp.
  destruct Hd as [Hc [Ha He]].
  split; [rewrite Hp; exact Hr|]. split; [exact Hc|]. split; [exact Ha|].
  split; [exact He|].
  unfold async_will_remove_from_hass. mstep.
  destruct (w_retry_task w') as [t|]; simpl;
    apply disconnect_no_client; simpl; exact Hc.
Qed.

(** C8 (code_bug): the teardown does not cancel the idle-disconnect timer.
    Right after a successful connect (idle timer, handle 1, armed, due at
    60), [async_will_remove_from_hass] disconnects (client cleared,
    unavailable, no live connection) but the idle timer stays pending: only
    [self._retry_task] is cancelled. *)
Theorem teardown_leaves_idle_timer_pending :
  w_pending connected_world = [mk_timer 1 IdleDisconnect 60] /\
  let w' := snd (async_will_remove_from_hass transport_ok connected_world) in
  w_client w' = None /\ w_available w' = false /\ w_live w' = [] /\
  w_pending w' = [mk_timer 1 IdleDisconnect 60].
Proof. vm_compute. repeat split. Qed.

(** ** Further properties of the decoder *)

Lemma u8_bounds (b : byte) : 0 <= u8 b <= 255.
Proof.
  unfold u8. pose proof (Byte.to_nat_bounded b). lia.
Qed.

Lemma s16be_bounds (hi lo : byte) : -32768 <= s16be hi lo <= 32767.
Proof.
  unfold s16be. pose proof (u8_bounds hi). pose proof (u8_bounds lo).
  destruct (Z.leb_spec 32768 (256 * u8 hi + u8 lo)); lia.
Qed.

(** [read_stable] on the signed byte [ctr1] unpacked from a raw byte: 1
    exactly when bits 7 and 5 of the raw byte are both set, else 0 (the
    sign of the unpacked value does not disturb the mask). *)
Theorem read_stable_signed_byte (b : byte) :
  read_stable (s8 b)
  = if Z.testbit (u8 b) 7 && Z.testbit (u8 b) 5 then 1 else 0.
Proof. destruct b; vm_compute; reflexivity. Qed.

(** As the source runs, [decode_weight] never returns: a payload shorter
    than 15 bytes raises [struct.error], any other raises [NameError]. *)
Theorem decode_weight_always_raises (data : list byte) :
  decode_weight data
  = Raise (if (List.length data <? 15)%nat then StructError else NameError).
Proof. exact (decode_weight_raises data). Qed.

(** [unique_id] tells addresses apart: two sensors with different
    addresses never share a unique id. *)
Theorem unique_id_injective (a1 a2 : string) :
  a1 <> a2 -> unique_id a1 <> unique_id a2.
Proof.
  unfold unique_id. intros Hne H. apply Hne.
  do 10 (apply (f_equal (fun s => match s with
                                  | String _ s' => s'
                                  | EmptyString => EmptyString
                                  end)) in H; simpl in H).
  exact H.
Qed.

Lemma unique_id_injective_witness :
  unique_id "AA:BB:CC:DD:EE:01" <> unique_id "AA:BB:CC:DD:EE:02".
Proof.
  exact (unique_id_injective "AA:BB:CC:DD:EE:01" "AA:BB:CC:DD:EE:02"
           ltac:(discriminate)).
Defined.

(** ** Further properties of the connection manager *)

(** [async_update] is [connect]: its own connectedness test repeats the one
    [connect] makes under the lock, so the two agree on every state. *)
Theorem async_update_is_connect
    (conn_res notify_res : nat -> option exn) (w : world) :
  async_update conn_res notify_res w = connect conn_res notify_res w.
Proof.
  unfold async_update. mstep. destruct (client_connected w) eqn:Hc.
  - symmetry. apply connect_when_connected, Hc.
  - reflexivity.
Qed.

(** A successful attempt: one transport connect call, the new client is
    current and connected, the entity is available, and a new idle timer is
    armed [idle_disconnect_delay] seconds ahead, appended to the pending
    entries without cancelling any of them (an idle timer left from an
    earlier connection stays pending). *)
Theorem connect_success
    (conn_res notify_res : nat -> option exn) (w : world) :
  client_connected w = false ->
  conn_res (w_next w) = None -> notify_res (w_next w) = None ->
  let (r, w') := connect conn_res notify_res w in
  r = Ret tt /\ w_client w' = Some (w_next w) /\ client_connected w' = true /\
  w_available w' = true /\
  w_disconnect_timer w' = Some (S (w_next w)) /\
  w_pending w' = w_pending w ++
    [mk_timer (S (w_next w)) IdleDisconnect (w_now w + idle_disconnect_delay)] /\
  w_connect_calls w' = S (w_connect_calls w).
Proof.
  intros Hc Hcr Hnr. unfold connect. mstep. rewrite Hc.
  unfold new_client, transport_connect, start_notify, call_later. mstep.
  rewrite Hcr. simpl. rewrite Hnr. simpl.
  unfold client_connected, is_connected. simpl. rewrite Nat.eqb_refl.
  repeat split.
Qed.

Lemma connect_success_witness :
  let (r, w') := connect transport_ok transport_ok init_world in
  r = Ret tt /\ w_client w' = Some 0%nat /\ client_connected w' = true /\
  w_available w' = true /\ w_disconnect_timer w' = Some 1%nat /\
  w_pending w' = [mk_timer 1 IdleDisconnect 60] /\ w_connect_calls w' = 1%nat.
Proof.
  exact (connect_success transport_ok transport_ok init_world
           eq_refl eq_refl eq_refl).
Defined.

(** As the source runs, every notification raises (inside
    [decode_weight]) and leaves the state as it was: the reported weight is
    never set. *)
Theorem notification_handler_never_updates (data : list byte) (w : world) :
  exists e, notification_handler data w = (Raise e, w).
Proof.
  eexists. apply notification_handler_raises, decode_weight_raises.
Qed.

Lemma fire_dequeue (cr nr clr : nat -> option exn) (t : pending_timer)
    (w : world) :
  fire cr nr clr t w =
  (match tm_kind t with
   | IdleDisconnect => disconnect clr
   | RetryConnect => async_update cr nr
   end)
    (set_pending
       (filter (fun t' => negb (Nat.eqb (tm_id t') (tm_id t))) (w_pending w))
       (set_now (Nat.max (w_now w) (tm_due t)) w)).
Proof.
  unfold fire. mstep. destruct (match tm_kind t with
     | IdleDisconnect => disconnect clr
     | RetryConnect => async_update cr nr
     end _); reflexivity.
Qed.

(** An idle timer that fires once the client is gone (e.g. the one the
    teardown leaves pending) only leaves the queue: [disconnect] finds no
    client and does nothing. *)
Theorem fire_idle_without_client_harmless
    (cr nr clr : nat -> option exn) (t : pending_timer) (w : world) :
  tm_kind t = IdleDisconnect -> w_client w = None ->
  let (r, w') := fire cr nr clr t w in
  r = Ret tt /\ w_state w' = w_state w /\ w_available w' = w_available w /\
  w_client w' = None /\ w_live w' = w_live w /\
  w_pending w' = filter (fun t' => negb (Nat.eqb (tm_id t') (tm_id t)))
                         (w_pending w).
Proof.
  intros Hk Hc. rewrite fire_dequeue, Hk.
  unfold disconnect, client_connected. mstep. rewrite Hc.
  repeat split. unfold set_pending, set_now. simpl. exact Hc.
Qed.

Lemma fire_idle_without_client_harmless_witness :
  let w1 := snd (async_will_remove_from_hass transport_ok connected_world) in
  let (r, w') := fire transport_ok transport_ok transport_ok
                   (mk_timer 1 IdleDisconnect 60) w1 in
  r = Ret tt /\ w_state w' = w_state w1 /\ w_available w' = w_available w1 /\
  w_client w' = None /\ w_live w' = w_live w1 /\ w_pending w' = [].
Proof.
  exact (fire_idle_without_client_harmless transport_ok transport_ok
           transport_ok (mk_timer 1 IdleDisconnect 60)
           (snd (async_will_remove_from_hass transport_ok connected_world))
           eq_refl ltac:(vm_compute; reflexivity)).
Defined.

(** An idle timer firing while connected closes the connection: whatever
    the close does, the client is cleared, the entity unavailable and no
    exception of class [Exception] escapes; when the close succeeds the
    call returns normally and the transport connection is gone. *)
Theorem fire_idle_disconnects
    (cr nr clr : nat -> option exn) (t : pending_timer) (w : world)
    (c : nat) :
  tm_kind t = IdleDisconnect -> w_client w = Some c ->
  is_connected c w = true ->
  let (r, w') := fire cr nr clr t w in
  w_client w' = None /\ w_available w' = false /\
  (forall e, r = Raise e -> is_Exception e = false) /\
  (clr c = None -> r = Ret tt /\ ~ In c (w_live w')).
Proof.
  intros Hk Hc Hl. rewrite fire_dequeue, Hk.
  unfold disconnect, client_connected, is_connected in *. mstep.
  rewrite Hc, Hl.
  unfold _disconnect, disconnect_body, transport_disconnect. mstep.
  rewrite Hc. destruct (clr c) as [e|] eqn:Ec; simpl.
  - destruct (is_Exception e) eqn:He; simpl;
      (split; [reflexivity|]; split; [reflexivity|]; split;
       [intros e' Hr; inversion Hr; subst; assumption
       | intros Hn; discriminate Hn]).
  - split; [reflexivity|]. split; [reflexivity|].
    split; [intros e' Hr; discriminate Hr|]. intros _.
    split; [reflexivity|].
    rewrite filter_In. intros [_ Hn]. rewrite Nat.eqb_refl in Hn.
    discriminate Hn.
Qed.

Lemma fire_idle_disconnects_witness :
  let (r, w') := fire transport_ok transport_ok (fun _ => Some BleakError)
                   (mk_timer 1 IdleDisconnect 60) connected_world in
  w_client w' = None /\ w_available w' = false /\
  (forall e, r = Raise e -> is_Exception e = false) /\
  ((fun _ : nat => Some BleakError) 0%nat = None ->
   r = Ret tt /\ ~ In 0%nat (w_live w')).
Proof.
  exact (fire_idle_disconnects transport_ok transport_ok
           (fun _ => Some BleakError)
           (mk_timer 1 IdleDisconnect 60) connected_world 0
           eq_refl eq_refl eq_refl).
Defined.

(** A retry firing while connected only dequeues itself and moves the
    clock. *)
Lemma fire_retry_connected
    (cr nr clr : nat -> option exn) (t : pending_timer) (w : world) :
  tm_kind t = RetryConnect -> client_connected w = true ->
  fire cr nr clr t w =
  (Ret tt,
   set_pending (filter (fun t' => negb (Nat.eqb (tm_id t') (tm_id t)))
                       (w_pending w))
               (set_now (Nat.max (w_now w) (tm_due t)) w)).
Proof.
  intros Hk Hc. rewrite fire_dequeue, Hk.
  unfold async_update. mstep.
  unfold client_connected, is_connected in *. simpl.
  destruct (w_client w); [|discriminate Hc]. rewrite Hc. reflexivity.
Qed.

(** A retry that fires while the client is still connected only leaves the
    queue: [async_update] sees the connection and does nothing. *)
Theorem fire_retry_when_connected_noop
    (cr nr clr : nat -> option exn) (t : pending_timer) (w : world) :
  tm_kind t = RetryConnect -> client_connected w = true ->
  fire cr nr clr t w =
  (Ret tt,
   set_pending (filter (fun t' => negb (Nat.eqb (tm_id t') (tm_id t)))
                       (w_pending w))
               (set_now (Nat.max (w_now w) (tm_due t)) w)).
Proof. exact (fire_retry_connected cr nr clr t w). Qed.

Lemma fire_retry_when_connected_noop_witness :
  fire transport_ok transport_ok transport_ok (mk_timer 5 RetryConnect 60)
       connected_world =
  (Ret tt,
   set_pending (filter (fun t' => negb (Nat.eqb (tm_id t') 5))
                       (w_pending connected_world))
               (set_now (Nat.max (w_now connected_world) 60) connected_world)).
Proof.
  exact (fire_retry_when_connected_noop transport_ok transport_ok transport_ok
           (mk_timer 5 RetryConnect 60) connected_world eq_refl eq_refl).
Defined.



(** ** The retry bookkeeping invariant *)

(** A step that keeps the retry handle, hands out only fresh ids and
    only adds idle timers with those ids keeps [mgr_inv]. *)
Lemma mgr_inv_make (w w' : world) (keep extra : list pending_timer) :
  mgr_inv w ->
  w_retry_task w' = w_retry_task w ->
  (w_next w <= w_next w')%nat ->
  w_pending w' = keep ++ extra ->
  (forall t, In t keep -> In t (w_pending w)) ->
  NoDup (map tm_id keep) ->
  NoDup (map tm_id extra) ->
  (forall t, In t extra ->
     tm_kind t = IdleDisconnect /\ (w_next w <= tm_id t < w_next w')%nat) ->
  mgr_inv w'.
Proof.
  intros [Hr [[Hf1 Hf2] Hnd]] Hrt Hn Hp Hk Hndk Hnde He.
  split; [|split; [split|]].
  - intros t Ht. rewrite Hp in Ht. rewrite Hrt.
    apply in_app_or in Ht as [Ht | Ht].
    + apply Hr, Hk, Ht.
    + destruct (He t Ht) as [Hkd Hb]. rewrite Hkd. split; [discriminate|].
      intros Hs. specialize (Hf2 _ Hs). lia.
  - intros t Ht. rewrite Hp in Ht. apply in_app_or in Ht as [Ht | Ht].
    + specialize (Hf1 t (Hk t Ht)). lia.
    + destruct (He t Ht). lia.
  - intros r Hs. rewrite Hrt in Hs. specialize (Hf2 r Hs). lia.
  - rewrite Hp, map_app. apply NoDup_app; [exact Hndk | exact Hnde |].
    intros i Hi1 Hi2. apply in_map_iff in Hi1 as [t1 [<- Ht1]].
    apply in_map_iff in Hi2 as [t2 [Heq Ht2]].
    specialize (Hf1 t1 (Hk t1 Ht1)). destruct (He t2 Ht2). lia.
Qed.

(** Dropping timers from the queue keeps their ids distinct. *)
Lemma pending_ids_filter (keep : pending_timer -> bool)
    (q : list pending_timer) :
  NoDup (map tm_id q) -> NoDup (map tm_id (filter keep q)).
Proof.
  induction q as [|t q IHq]; intros Hq; simpl; [exact Hq|].
  apply NoDup_cons_iff in Hq as [Hnot Hrest].
  destruct (keep t) eqn:Ek; simpl; [|exact (IHq Hrest)].
  apply NoDup_cons; [|exact (IHq Hrest)].
  rewrite in_map_iff. intros [t' [Hid Hin]]. rewrite filter_In in Hin.
  apply Hnot. rewrite <- Hid. apply in_map, (proj1 Hin).
Qed.

(** The step of [_schedule_retry]: what is kept holds no retry task, and
    the new retry task, with a fresh id, is the one the handle names. *)
Lemma mgr_inv_retry (w w' : world) (keep : list pending_timer) (n due : nat) :
  mgr_inv w ->
  w_retry_task w' = Some n ->
  (w_next w <= n < w_next w')%nat ->
  w_pending w' = keep ++ [mk_timer n RetryConnect due] ->
  (forall t, In t keep -> In t (w_pending w) /\ tm_kind t = IdleDisconnect) ->
  NoDup (map tm_id keep) ->
  mgr_inv w'.
Proof.
  intros [Hr [[Hf1 Hf2] Hnd]] Hrt Hn Hp Hk Hndk.
  unfold mgr_inv, retry_inv, ids_fresh. rewrite Hp, Hrt.
  split; [|split; [split|]].
  - intros t Ht. apply in_app_or in Ht as [Ht | [<- | []]].
    + destruct (Hk t Ht) as [Hin Hkd]. rewrite Hkd. split; [discriminate|].
      intros Hs. injection Hs as Hs. specialize (Hf1 t Hin). lia.
    + simpl. split; reflexivity.
  - intros t Ht. apply in_app_or in Ht as [Ht | [<- | []]].
    + specialize (Hf1 t (proj1 (Hk t Ht))). lia.
    + simpl. lia.
  - intros r Hs. injection Hs as <-. lia.
  - rewrite map_app. apply NoDup_app; [exact Hndk | repeat constructor; simpl; tauto |].
    intros i Hi1 [Hi2 | []]. subst i.
    apply in_map_iff in Hi1 as [t [Heq Ht]].
    specialize (Hf1 t (proj1 (Hk t Ht))). simpl in Heq. lia.
Qed.

Lemma schedule_retry_mgr_inv (w : world) :
  mgr_inv w -> mgr_inv (snd (schedule_retry w)).
Proof.
  intros Hi. pose proof Hi as [Hr [_ Hnd]].
  unfold schedule_retry, cancel, call_later. mstep.
  destruct (w_retry_task w) as [r|] eqn:Er; simpl.
  - eapply (mgr_inv_retry w _
              (filter (fun t => negb (Nat.eqb (tm_id t) r)) (w_pending w)));
      simpl; [exact Hi | reflexivity | lia | reflexivity | |].
    + intros t Ht. apply filter_In in Ht as [Ht Hne]. split; [exact Ht|].
      destruct (tm_kind t) eqn:Ek; [reflexivity|].
      destruct (Hr t Ht) as [H _]. rewrite Er in H. specialize (H Ek).
      injection H as H. rewrite <- H, Nat.eqb_refl in Hne. discriminate Hne.
    + apply pending_ids_filter, Hnd.
  - eapply (mgr_inv_retry w _ (w_pending w));
      simpl; [exact Hi | reflexivity | lia | reflexivity | | exact Hnd].
    intros t Ht. split; [exact Ht|]. destruct (tm_kind t) eqn:Ek; [reflexivity|].
    destruct (Hr t Ht) as [H _]. rewrite Er in H. specialize (H Ek).
    discriminate H.
Qed.

(** [cbn] reduces field projections of nested setters lazily (unfolding
    them copies the world once per field). *)
Ltac reduce_setters := cbn.

(** A step that adds no pending entry and keeps the retry handle. *)
Ltac inv_same w Hi :=
  eapply (mgr_inv_make w _ (w_pending w) []); reduce_setters;
  [ exact Hi | reflexivity | lia | rewrite app_nil_r; reflexivity
  | intros ? Hin; exact Hin | exact (proj2 (proj2 Hi)) | constructor
  | intros ? [] ].

Lemma connect_mgr_inv (cr nr : nat -> option exn) (w : world) :
  mgr_inv w -> mgr_inv (snd (connect cr nr w)).
Proof.
  intros Hi. destruct (client_connected w) eqn:Hc.
  { rewrite (connect_when_connected cr nr w Hc). exact Hi. }
  unfold connect. mstep. rewrite Hc.
  unfold new_client, transport_connect, start_notify, call_later. mstep.
  destruct (cr (w_next w)) as [e|]; simpl.
  - destruct (connect_handler e) as [h|] eqn:Eh; simpl.
    + rewrite (connect_handler_some e h Eh). mstep.
      match goal with
      | |- context [schedule_retry ?x] =>
          pose proof (schedule_retry_mgr_inv x) as Hs;
          destruct (schedule_retry x) as [r w'] eqn:Es
      end.
      simpl in *. apply Hs. clear Es Hs. inv_same w Hi.
    + inv_same w Hi.
  - destruct (nr (w_next w)) as [e|]; simpl.
    + destruct (connect_handler e) as [h|] eqn:Eh; simpl.
      * rewrite (connect_handler_some e h Eh). mstep.
        match goal with
        | |- context [schedule_retry ?x] =>
            pose proof (schedule_retry_mgr_inv x) as Hs;
            destruct (schedule_retry x) as [r w'] eqn:Es
        end.
        simpl in *. apply Hs. clear Es Hs. inv_same w Hi.
      * inv_same w Hi.
    + eapply (mgr_inv_make w _ (w_pending w)
                [mk_timer (S (w_next w)) IdleDisconnect
                   (w_now w + idle_disconnect_delay)]); reduce_setters;
        [ exact Hi | reflexivity | lia | reflexivity
        | intros ? Hin; exact Hin | exact (proj2 (proj2 Hi))
        | repeat constructor; simpl; tauto
        | intros ? [<- | []]; simpl; split; [reflexivity | lia] ].
Qed.

Lemma mgr_inv_frame (w w' : world) :
  mgr_inv w -> w_pending w' = w_pending w -> w_retry_task w' = w_retry_task w ->
  w_next w' = w_next w -> mgr_inv w'.
Proof.
  intros Hi Hp Hr Hn.
  eapply (mgr_inv_make w w' (w_pending w) []);
    [ exact Hi | exact Hr | lia | rewrite app_nil_r; exact Hp
    | intros ? Hin; exact Hin | exact (proj2 (proj2 Hi)) | constructor
    | intros ? [] ].
Qed.

Lemma disconnect_frame (clr : nat -> option exn) (w : world) :
  let w' := snd (_disconnect clr w) in
  w_pending w' = w_pending w /\ w_retry_task w' = w_retry_task w /\
  w_next w' = w_next w.
Proof.
  unfold _disconnect, disconnect_body, transport_disconnect. mstep.
  destruct (w_client w) as [cid|]; simpl; [|repeat split].
  destruct (clr cid) as [e|]; simpl; [|repeat split].
  destruct (is_Exception e); simpl; repeat split.
Qed.

Lemma disconnect_mgr_inv (clr : nat -> option exn) (w : world) :
  mgr_inv w -> mgr_inv (snd (_disconnect clr w)).
Proof.
  intros Hi. destruct (disconnect_frame clr w) as [Hp [Hr Hn]].
  exact (mgr_inv_frame w _ Hi Hp Hr Hn).
Qed.

Lemma cancel_mgr_inv (id : nat) (w : world) :
  mgr_inv w -> mgr_inv (snd (cancel id w)).
Proof.
  intros Hi. unfold cancel, modify. simpl.
  eapply (mgr_inv_make w _
            (filter (fun t => negb (Nat.eqb (tm_id t) id)) (w_pending w)) []);
    reduce_setters;
    [ exact Hi | reflexivity | lia | rewrite app_nil_r; reflexivity
    | intros ? Hin; apply filter_In in Hin; tauto
    | apply pending_ids_filter, (proj2 (proj2 Hi)) | constructor
    | intros ? [] ].
Qed.

Lemma notification_mgr_inv (rs : option (Z -> Z)) (data : list byte)
    (w : world) :
  mgr_inv w -> mgr_inv (snd (notification_handler_with rs data w)).
Proof.
  intros Hi.
  destruct (decode_weight_with rs data) as [[v|]|e] eqn:Ed.
  - unfold notification_handler_with. mstep. rewrite Ed. simpl.
    unfold cancel, call_later. mstep.
    destruct (w_disconnect_timer w) as [d|]; simpl.
    + eapply (mgr_inv_make w _
                (filter (fun t => negb (Nat.eqb (tm_id t) d)) (w_pending w))
                [mk_timer (w_next w) IdleDisconnect (w_now w + idle_disconnect_delay)]);
        reduce_setters;
        [ exact Hi | reflexivity | lia | reflexivity
        | intros ? Hin; apply filter_In in Hin; tauto
        | apply pending_ids_filter, (proj2 (proj2 Hi))
        | repeat constructor; simpl; tauto
        | intros ? [<- | []]; simpl; split; [reflexivity | lia] ].
    + eapply (mgr_inv_make w _ (w_pending w)
                [mk_timer (w_next w) IdleDisconnect (w_now w + idle_disconnect_delay)]);
        reduce_setters;
        [ exact Hi | reflexivity | lia | reflexivity
        | intros ? Hin; exact Hin | exact (proj2 (proj2 Hi))
        | repeat constructor; simpl; tauto
        | intros ? [<- | []]; simpl; split; [reflexivity | lia] ].
  - rewrite (notification_handler_none rs data w Ed). exact Hi.
  - rewrite (notification_handler_raises rs data w e Ed). exact Hi.
Qed.

Lemma teardown_mgr_inv (clr : nat -> option exn) (w : world) :
  mgr_inv w -> mgr_inv (snd (async_will_remove_from_hass clr w)).
Proof.
  intros Hi. unfold async_will_remove_from_hass at 1. mstep.
  destruct (w_retry_task w) as [r|] eqn:Er.
  - pose proof (cancel_mgr_inv r w Hi) as Hc.
    destruct (cancel r w) as [rc wc] eqn:Ec.
    unfold cancel, modify in Ec. injection Ec as <- <-. simpl.
    apply disconnect_mgr_inv, Hc.
  - apply disconnect_mgr_inv, Hi.
Qed.

Lemma fire_mgr_inv (cr nr clr : nat -> option exn) (t : pending_timer)
    (w : world) :
  mgr_inv w -> mgr_inv (snd (fire cr nr clr t w)).
Proof.
  intros Hi. rewrite fire_dequeue.
  set (w1 := set_pending
               (filter (fun t' => negb (Nat.eqb (tm_id t') (tm_id t))) (w_pending w))
               (set_now (Nat.max (w_now w) (tm_due t)) w)).
  assert (H1 : mgr_inv w1).
  { unfold w1.
    eapply (mgr_inv_make w _
              (filter (fun t' => negb (Nat.eqb (tm_id t') (tm_id t))) (w_pending w)) []);
      reduce_setters;
      [ exact Hi | reflexivity | lia | rewrite app_nil_r; reflexivity
      | intros ? Hin; apply filter_In in Hin; tauto
      | apply pending_ids_filter, (proj2 (proj2 Hi)) | constructor
      | intros ? [] ]. }
  destruct (tm_kind t).
  - unfold disconnect. mstep. destruct (client_connected w1).
    + apply disconnect_mgr_inv, H1.
    + exact H1.
  - rewrite async_update_is_connect. apply connect_mgr_inv, H1.
Qed.

Lemma init_mgr_inv : mgr_inv init_world.
Proof.
  split; [|split; [split|]]; simpl.
  - intros t [].
  - intros t [].
  - intros r H. discriminate H.
  - constructor.
Qed.

Lemma reachable_mgr_inv (w : world) : reachable w -> mgr_inv w.
Proof.
  induction 1.
  - exact init_mgr_inv.
  - apply connect_mgr_inv; assumption.
  - apply notification_mgr_inv; assumption.
  - apply teardown_mgr_inv; assumption.
  - apply fire_mgr_inv; assumption.
Qed.

Lemma filter_retry_nil (r : nat) (l : list pending_timer) :
  (forall t, In t l -> is_retry t = true -> tm_id t = r) ->
  ~ In r (map tm_id l) -> filter is_retry l = [].
Proof.
  induction l as [|t l IH]; intros H Hn; [reflexivity|].
  simpl in *. destruct (is_retry t) eqn:Et.
  - exfalso. apply Hn. left. apply H; [left; reflexivity | exact Et].
  - apply IH; [intros t' Ht'; apply H; right; exact Ht' | tauto].
Qed.

Lemma filter_retry_at_most_one (r : nat) (l : list pending_timer) :
  NoDup (map tm_id l) ->
  (forall t, In t l -> is_retry t = true -> tm_id t = r) ->
  (List.length (filter is_retry l) <= 1)%nat.
Proof.
  induction l as [|t l IH]; intros Hnd H; simpl; [lia|].
  inversion Hnd as [|x y Hn Hnd']; subst.
  destruct (is_retry t) eqn:Et.
  - rewrite (filter_retry_nil r l); [simpl; lia | |].
    + intros t' Ht'. apply H. right. exact Ht'.
    + rewrite <- (H t (or_introl eq_refl) Et). exact Hn.
  - apply IH; [exact Hnd' | intros t' Ht'; apply H; right; exact Ht'].
Qed.

(** In every reachable state, [self._retry_task] is the handle of exactly
    the pending retry tasks, and at most one retry task is pending:
    [_schedule_retry] cancels the previous one before creating the next. *)
Theorem reachable_single_retry (w : world) :
  reachable w ->
  (forall t, In t (w_pending w) ->
     (tm_kind t = RetryConnect <-> w_retry_task w = Some (tm_id t))) /\
  (List.length (filter is_retry (w_pending w)) <= 1)%nat.
Proof.
  intros Hr. destruct (reachable_mgr_inv w Hr) as [Hi [_ Hnd]].
  split; [exact Hi|].
  destruct (w_retry_task w) as [r|] eqn:Er.
  - apply (filter_retry_at_most_one r _ Hnd).
    intros t Ht Hk. destruct (Hi t Ht) as [H _]. rewrite Er in H.
    unfold is_retry in Hk. destruct (tm_kind t); [discriminate Hk|].
    specialize (H eq_refl). injection H as H. symmetry. exact H.
  - rewrite (filter_no_retries (w_pending w)); [simpl; lia|].
    intros t Ht. rewrite <- Er. apply Hi, Ht.
Qed.

Lemma reachable_single_retry_witness :
  let w := snd (connect (fun _ => Some TimeoutError) transport_ok
                  (snd (connect (fun _ => Some TimeoutError) transport_ok
                          init_world))) in
  (forall t, In t (w_pending w) ->
     (tm_kind t = RetryConnect <-> w_retry_task w = Some (tm_id t))) /\
  (List.length (filter is_retry (w_pending w)) <= 1)%nat.
Proof.
  exact (reachable_single_retry _
           (reach_connect _ _ _ (reach_connect _ _ _ reach_init))).
Defined.

(** From every reachable state, the teardown leaves no retry task pending,
    clears the client, marks the entity unavailable, lets no [Exception]
    out, and a second teardown returns normally. *)
Theorem reachable_teardown_clears (clr : nat -> option exn) (w : world) :
  reachable w ->
  let (r, w') := async_will_remove_from_hass clr w in
  filter is_retry (w_pending w') = [] /\ w_client w' = None /\
  w_available w' = false /\
  (forall e, r = Raise e -> is_Exception e = false) /\
  fst (async_will_remove_from_hass clr w') = Ret tt.
Proof.
  intros Hr. apply teardown_cancels_retry_and_disconnects.
  exact (proj1 (reachable_mgr_inv w Hr)).
Qed.

Lemma reachable_teardown_clears_witness :
  let (r, w') := async_will_remove_from_hass (fun _ => Some BleakError)
                   connected_world in
  filter is_retry (w_pending w') = [] /\ w_client w' = None /\
  w_available w' = false /\
  (forall e, r = Raise e -> is_Exception e = false) /\
  fst (async_will_remove_from_hass (fun _ => Some BleakError) w') = Ret tt.
Proof.
  exact (reachable_teardown_clears (fun _ => Some BleakError) connected_world
           (reach_connect _ _ _ reach_init)).
Defined.
